(** * Speaker-diarized transcription: a model of [trans.py]

    The script is a straight-line pipeline around two pre-trained models.
    What can be verified is the glue: how file names are derived, which
    files are written and removed, how the collected segments are ordered
    and rendered, and how the command line is checked.

    Modelling choices, each documented where it is made:
    - Python [str] values are [string] (ASCII; the only characters the
      code inspects are those of the constant [".m4a"]);
    - a finite Python [float] is the rational number it denotes, [Q];
      NaN, the infinities and negative zero are not represented;
    - the disk is a finite map from path to file content, [gmap string _];
      a path is the string the script spells, so two spellings of one
      file are two keys, and nothing is stated here about files told
      apart from the script's own by their spelling alone;
    - the third-party libraries (pydub, pyannote, whisper) and the answer
      of the file system to an attempt to create a file are a record of
      oracles, any of which may fail;
    - the function body is written in a state-and-exception monad over
      the disk, so a fault keeps the disk as it was when it was raised. *)

From Stdlib Require Import QArith Qabs Qround Sorting.Sorted Sorting.Permutation.
From Stdlib Require Import Ascii String DecimalString.
From stdpp Require Import gmap strings list fin_maps.

Local Open Scope string_scope.

(* ===================================================================== *)
(** ** Python string methods used by the script *)
(* ===================================================================== *)

Module PyStr.

(** [c.lower()] on one ASCII character. *)
Definition lower_ascii (c : ascii) : ascii :=
  let n := Ascii.nat_of_ascii c in
  if (65 <=? n)%nat && (n <=? 90)%nat then Ascii.ascii_of_nat (n + 32) else c.

(** [s.lower()] *)
Fixpoint lower (s : string) : string :=
  match s with
  | EmptyString => EmptyString
  | String c s' => String (lower_ascii c) (lower s')
  end.

(** [s.startswith(p)] *)
Fixpoint startswith (s p : string) : bool :=
  match p, s with
  | EmptyString, _ => true
  | String _ _, EmptyString => false
  | String a p', String b s' => Ascii.eqb a b && startswith s' p'
  end.

(** [s.endswith(suffix)]: the last [len(suffix)] characters are [suffix]. *)
Definition endswith (s suffix : string) : bool :=
  let n := String.length s in
  let m := String.length suffix in
  (m <=? n)%nat && String.eqb (String.substring (n - m) m s) suffix.

(** [s.replace(old, new)] for a non-empty [old]: every non-overlapping
    occurrence, scanning left to right.  [skip] counts the characters of an
    occurrence that has just been replaced and still has to be dropped. *)
Fixpoint replace_from (skip : nat) (old new s : string) : string :=
  match s with
  | EmptyString => EmptyString
  | String c s' =>
      match skip with
      | S k => replace_from k old new s'
      | O =>
          if startswith s old
          then new ++ replace_from (String.length old - 1) old new s'
          else String c (replace_from 0 old new s')
      end
  end.

(** With an empty [old] Python puts [new] before every character and at
    the end. *)
Fixpoint interleave (new s : string) : string :=
  match s with
  | EmptyString => new
  | String c s' => new ++ String c (interleave new s')
  end.

Definition replace (old new s : string) : string :=
  match old with
  | EmptyString => interleave new s
  | String _ _ => replace_from 0 old new s
  end.

(** ASCII characters for which [str.isspace] holds: TAB, LF, VT, FF, CR,
    FS, GS, RS, US and the space. *)
Definition isspace (c : ascii) : bool :=
  let n := Ascii.nat_of_ascii c in
  ((9 <=? n)%nat && (n <=? 13)%nat) || ((28 <=? n)%nat && (n <=? 32)%nat).

Fixpoint lstrip (s : string) : string :=
  match s with
  | EmptyString => EmptyString
  | String c s' => if isspace c then lstrip s' else s
  end.

(** [rstrip] keeps a character when it is not a space or when something
    survives to its right. *)
Fixpoint rstrip (s : string) : string :=
  match s with
  | EmptyString => EmptyString
  | String c s' =>
      match rstrip s' with
      | EmptyString => if isspace c then EmptyString else String c EmptyString
      | r => String c r
      end
  end.

(** [s.strip()] *)
Definition strip (s : string) : string := rstrip (lstrip s).

(** [c in s] for one character. *)
Fixpoint contains (c : ascii) (s : string) : bool :=
  match s with
  | EmptyString => false
  | String d s' => Ascii.eqb c d || contains c s'
  end.

(** [old in s]: [old] occurs somewhere in [s]. *)
Fixpoint occurs (old s : string) : bool :=
  startswith s old
  || match s with
     | EmptyString => false
     | String _ s' => occurs old s'
     end.

End PyStr.

(* ===================================================================== *)
(** ** Formatting a float with [:.2f] *)
(* ===================================================================== *)

Module PyFloat.

(** Decimal digits of a natural number, as [str(n)] prints them. *)
Definition digits (n : N) : string := NilZero.string_of_uint (N.to_uint n).

(** [round(x * 100)] for [x >= 0] given as [num/den], to the nearest
    integer, ties to the even one: the rounding of the C library's
    [printf], which Python's float formatting follows on the exact value
    of the float. *)
Definition round_half_even (num : Z) (den : positive) : Z :=
  let q := (num / Z.pos den)%Z in
  let r := (num mod Z.pos den)%Z in
  match (2 * r ?= Z.pos den)%Z with
  | Lt => q
  | Gt => (q + 1)%Z
  | Eq => if Z.even q then q else (q + 1)%Z
  end.

(** The number of hundredths printed for [x]: [|x| * 100] rounded. *)
Definition hundredths (x : Q) : Z :=
  round_half_even (100 * Z.abs (Qnum x)) (Qden x).

(** Two digits, zero padded. *)
Definition two_digits (n : Z) : string :=
  if (n <? 10)%Z then "0" ++ digits (Z.to_N n) else digits (Z.to_N n).

(** [f"{x:.2f}"]: sign (kept even when the digits round to zero), integer
    part, a point, two decimals. *)
Definition format_2f (x : Q) : string :=
  let h := hundredths x in
  (if (Qnum x <? 0)%Z then "-" else "")
    ++ digits (Z.to_N (h / 100)) ++ "." ++ two_digits (h mod 100).

End PyFloat.

Import PyStr PyFloat.

(* ===================================================================== *)
(** ** Segments and the assembler *)
(* ===================================================================== *)

(** What [itertracks(yield_label=True)] yields, without the track name the
    loop ignores: a time interval and a speaker label. *)
Record track := Track { seg_start : Q; seg_end : Q; label : string }.

(** The dictionary appended to [segments] (lines 72-77). *)
Record segment := Segment {
  speaker : string;
  start : Q;
  end_ : Q;
  text : string
}.

(** The line feed, [\n]. *)
Definition nl : string := String (Ascii.ascii_of_nat 10) EmptyString.

(** Line 65: [f"temp_{speaker}_{start_time:.2f}.wav"] *)
Definition temp_filename (speaker : string) (start_time : Q) : string :=
  "temp_" ++ speaker ++ "_" ++ format_2f start_time ++ ".wav".

Definition temp_of (tr : track) : string :=
  temp_filename (label tr) (seg_start tr).

(** A segment carries the speaker and the interval of the track it was
    made from (lines 72-75); its text is whatever the recognizer heard. *)
Definition built_from (tr : track) (seg : segment) : Prop :=
  speaker seg = label tr /\ start seg = seg_start tr /\ end_ seg = seg_end tr.

(** The key comparisons of the sort, as relations on segments. *)
Definition starts_before (a b : segment) : Prop := (start a <= start b)%Q.

Definition same_start (k : Q) (seg : segment) : bool := Qeq_bool (start seg) k.

(** [list.sort] is a stable sort; it is modelled by a stable insertion
    sort on the key [x["start"]] (line 86).  An element is put before the
    first element whose key is not smaller, and elements are inserted from
    the last to the first, so equal keys keep their order. *)
Fixpoint insert_by_start (x : segment) (l : list segment) : list segment :=
  match l with
  | [] => [x]
  | y :: l' =>
      if Qle_bool (start x) (start y) then x :: y :: l'
      else y :: insert_by_start x l'
  end.

Fixpoint sort_by_start (l : list segment) : list segment :=
  match l with
  | [] => []
  | x :: l' => insert_by_start x (sort_by_start l')
  end.

(** Lines 94-95: one rendered line. *)
Definition render_line (seg : segment) : string :=
  "Speaker " ++ speaker seg ++ " "
    ++ "(" ++ format_2f (start seg) ++ "s - " ++ format_2f (end_ seg) ++ "s): "
    ++ text seg ++ nl.

(** Lines 91-96: [transcript_str += ...] over the segments. *)
Definition render (segments : list segment) : string :=
  fold_left (fun transcript_str seg => transcript_str ++ render_line seg)
            segments "".

(** Steps 6 and 7 together: the Assembler. *)
Definition assemble (segments : list segment) : string :=
  render (sort_by_start segments).

(* ===================================================================== *)
(** ** The disk, the libraries and the monad of the function body *)
(* ===================================================================== *)

(** Faults the run can end with, by the step that raises them.
    - [MissingFile p]: a file that does not exist is opened for reading or
      removed ([FileNotFoundError]);
    - [CannotWrite p]: [export] cannot create [p] ([FileNotFoundError] when
      the directory is missing, [PermissionError], ...);
    - [CouldntDecodeError p]: pydub cannot decode the file;
    - [PipelineLoadError]: [Pipeline.from_pretrained] fails (lines 31-32);
    - [DiarizationError]: the loaded pipeline fails on the file (line 37);
    - [WhisperLoadError]: [whisper.load_model] fails (line 43);
    - [TranscriptionError p]: the recognizer fails on the chunk [p]. *)
Inductive exn :=
| MissingFile (path : string)
| CannotWrite (path : string)
| CouldntDecodeError (path : string)
| PipelineLoadError
| DiarizationError
| WhisperLoadError
| TranscriptionError (path : string).

(** A computation ends with a value or with a fault; either way the disk
    is the one it left behind. *)
Inductive result (S A : Type) :=
| Ok (a : A) (σ : S)
| Raise (e : exn) (σ : S).
Arguments Ok {S A} a σ.
Arguments Raise {S A} e σ.

(** What the script relies on, as black boxes.
    - [decode fmt c]: [AudioSegment.from_file] on content [c] with the
      format hint [fmt];
    - [encode_wav a]: the bytes [a.export(_, format="wav")] writes;
    - [slice_ms a from to]: [a[from:to]], positions in milliseconds;
    - [writable p]: a file can be created or replaced at [p] (its
      directory exists and may be written to);
    - [from_pretrained token]: [Pipeline.from_pretrained] with this token
      returns a pipeline;
    - [diarize token c]: that pipeline applied to a file of content [c],
      the tracks in the order [itertracks] yields them;
    - [load_model]: [whisper.load_model("large-v2", ..)] returns a model;
    - [speech_to_text c]: [whisper_model.transcribe(_, language="en")["text"]]
      on a file of content [c]. *)
Record Collaborators (content audio : Type) := {
  decode : option string -> content -> option audio;
  encode_wav : audio -> content;
  slice_ms : audio -> Q -> Q -> audio;
  writable : string -> bool;
  from_pretrained : string -> bool;
  diarize : string -> content -> option (list track);
  load_model : bool;
  speech_to_text : content -> option string
}.
Arguments writable {content audio} _ _.
Arguments from_pretrained {content audio} _ _.
Arguments load_model {content audio} _.
Arguments decode {content audio} _ _ _.
Arguments encode_wav {content audio} _ _.
Arguments slice_ms {content audio} _ _ _ _.
Arguments diarize {content audio} _ _ _.
Arguments speech_to_text {content audio} _ _.

Section Pipeline.
Context {content audio : Type} (lib : Collaborators content audio).

(** The disk: the files that exist, by path as the script spells it. *)
Abbreviation disk := (gmap string content).

Definition M (A : Type) : Type := disk -> result disk A.

Definition ret {A} (a : A) : M A := fun σ => Ok a σ.

Definition bind {A B} (m : M A) (k : A -> M B) : M B :=
  fun σ => match m σ with
           | Ok a σ' => k a σ'
           | Raise e σ' => Raise e σ'
           end.

Definition raise {A} (e : exn) : M A := fun σ => Raise e σ.

Notation "'do' x <- m ; k" := (bind m (fun x => k))
  (at level 10, x name, m at level 100, k at level 200).
Notation "'do' ' ( x , y ) <- m ; k" := (bind m (fun '(x, y) => k))
  (at level 10, x name, y name, m at level 100, k at level 200).
Notation "m ';;' k" := (bind m (fun _ => k))
  (at level 100, k at level 200, right associativity).

(** [os.path.exists(p)] *)
Definition os_path_exists (p : string) : M bool :=
  fun σ => Ok (bool_decide (is_Some (σ !! p))) σ.

(** [os.remove(p)] *)
Definition os_remove (p : string) : M unit :=
  fun σ => match σ !! p with
           | Some _ => Ok tt (delete p σ)
           | None => Raise (MissingFile p) σ
           end.

Definition read_file (p : string) : M content :=
  fun σ => match σ !! p with
           | Some c => Ok c σ
           | None => Raise (MissingFile p) σ
           end.

(** Writing creates the file or replaces what it held, when a file can be
    created there; otherwise nothing is written. *)
Definition write_file (p : string) (c : content) : M unit :=
  fun σ => if writable lib p then Ok tt (<[p := c]> σ)
           else Raise (CannotWrite p) σ.

(** [AudioSegment.from_file(p, format=fmt)] *)
Definition from_file (p : string) (fmt : option string) : M audio :=
  do c <- read_file p;
  match decode lib fmt c with
  | Some a => ret a
  | None => raise (CouldntDecodeError p)
  end.

(** [a.export(p, format="wav")] *)
Definition export (a : audio) (p : string) : M unit :=
  write_file p (encode_wav lib a).

(** Lines 31-32: [Pipeline.from_pretrained].  Without a pipeline the run
    stops before the file is touched: either the call raises, or it
    returns no pipeline and the call of line 37 fails on it. *)
Definition load_pipeline (hf_token : string) : M unit :=
  if from_pretrained lib hf_token then ret tt else raise PipelineLoadError.

(** Lines 42-43: [whisper.load_model]. *)
Definition load_whisper : M unit :=
  if load_model lib then ret tt else raise WhisperLoadError.

(** Line 37: the loaded pipeline run on the file. *)
Definition run_pipeline (hf_token audio_file : string) : M (list track) :=
  do c <- read_file audio_file;
  match diarize lib hf_token c with
  | Some tracks => ret tracks
  | None => raise DiarizationError
  end.

(** Line 70: [whisper_model.transcribe(p, language="en")["text"]] *)
Definition whisper_transcribe (p : string) : M string :=
  do c <- read_file p;
  match speech_to_text lib c with
  | Some t => ret t
  | None => raise (TranscriptionError p)
  end.

(** Lines 20-26: the format normalizer.  Returns the path the rest of
    the run works on and [wav_file]. *)
Definition normalize (audio_file : string) : M (string * option string) :=
  if endswith (lower audio_file) ".m4a" then
    do audio <- from_file audio_file (Some "m4a");
    let wav_file := replace ".m4a" ".wav" audio_file in
    export audio wav_file;;
    ret (wav_file, Some wav_file)
  else
    ret (audio_file, None).

(** Lines 58-81: the body of the loop, for one track. *)
Definition transcribe_track (audio : audio) (tr : track) : M segment :=
  let start_time := seg_start tr in
  let end_time := seg_end tr in
  let audio_chunk :=
    slice_ms lib audio (start_time * 1000)%Q (end_time * 1000)%Q in
  let temp_filename := temp_filename (label tr) start_time in
  export audio_chunk temp_filename;;
  do result <- whisper_transcribe temp_filename;
  let seg := {| speaker := label tr; start := start_time;
                end_ := end_time; text := strip result |} in
  do present <- os_path_exists temp_filename;
  (if present then os_remove temp_filename else ret tt);;
  ret seg.

(** Lines 53-81: the loop, appending to [segments]. *)
Fixpoint for_each_track (audio : audio) (tracks : list track)
         (segments : list segment) : M (list segment) :=
  match tracks with
  | [] => ret segments
  | tr :: rest =>
      do seg <- transcribe_track audio tr;
      for_each_track audio rest (segments ++ [seg])
  end.

(** Python's truth value of [wav_file]: [None] and the empty string are
    false. *)
Definition truthy (wav_file : option string) : bool :=
  match wav_file with
  | Some (String _ _) => true
  | _ => false
  end.

(** Lines 98-99. *)
Definition cleanup (wav_file : option string) : M unit :=
  match wav_file with
  | Some p =>
      if truthy wav_file then
        do present <- os_path_exists p;
        if present then os_remove p else ret tt
      else ret tt
  | None => ret tt
  end.

Definition transcribe_speaker_diarization
           (audio_file hf_token : string) : M string :=
  do '(audio_file, wav_file) <- normalize audio_file;
  load_pipeline hf_token;;
  do diarization_result <- run_pipeline hf_token audio_file;
  load_whisper;;
  do audio <- from_file audio_file None;
  do segments <- for_each_track audio diarization_result [];
  let segments := sort_by_start segments in
  let transcript_str := render segments in
  cleanup wav_file;;
  ret transcript_str.

(** The tracks the loop iterates over: stages 0 to 2 of the run. *)
Definition diarization_of (audio_file hf_token : string) : M (list track) :=
  do '(audio_file, _) <- normalize audio_file;
  load_pipeline hf_token;;
  run_pipeline hf_token audio_file.

(** The bytes of the scratch file of a track (lines 62-66). *)
Definition chunk_of (audio : audio) (tr : track) : content :=
  encode_wav lib
    (slice_ms lib audio (seg_start tr * 1000)%Q (seg_end tr * 1000)%Q).

(** The segment a track becomes when its chunk is recognized. *)
Definition heard (audio : audio) (tr : track) : option segment :=
  match speech_to_text lib (chunk_of audio tr) with
  | Some result =>
      Some {| speaker := label tr; start := seg_start tr;
              end_ := seg_end tr; text := strip result |}
  | None => None
  end.

(** The turn of the loop for [tr] goes through and appends [seg]: the
    scratch file can be written and the recognizer answers. *)
Definition turn_yields (audio : audio) (tr : track) (seg : segment) : Prop :=
  writable lib (temp_of tr) = true /\ heard audio tr = Some seg.

(** The disk once the files named [ps] have been removed, one after the
    other. *)
Definition sweep (ps : list string) (σ : disk) : disk :=
  fold_left (fun σ p => delete p σ) ps σ.

(** The disk the clean-up of lines 98-99 leaves. *)
Definition cleaned (wav_file : option string) (σ : disk) : disk :=
  match wav_file with
  | Some p => if truthy wav_file then delete p σ else σ
  | None => σ
  end.

(** How the process ends: normally or through [sys.exit] with what it
    printed and its exit code, or with an uncaught exception. *)
Inductive outcome :=
| Exited (stdout : string) (code : Z) (σ : disk)
| Uncaught (e : exn) (σ : disk).

Definition usage : string :=
  "Usage: python transcribe_with_diarization.py <audio_file> <hf_token>".

(** Lines 103-112; [argv] is [sys.argv], the program name first. *)
Definition main (argv : list string) (σ : disk) : outcome :=
  if (length argv <? 3)%nat then
    Exited (usage ++ nl) 1 σ
  else
    let AUDIO_FILE := nth 1 argv "" in
    let HF_TOKEN := nth 2 argv "" in
    match transcribe_speaker_diarization AUDIO_FILE HF_TOKEN σ with
    | Ok transcript σ' => Exited (transcript ++ nl) 0 σ'
    | Raise e σ' => Uncaught e σ'
    end.

End Pipeline.

(* ===================================================================== *)
(** ** A toy implementation of the libraries, for concrete runs *)
(* ===================================================================== *)

(** File contents and decoded audio are descriptions in text; every file
    can be written and both models load; the diarizer yields [tracks]
    whatever the file, and the recognizer hears [said] in every chunk. *)
Definition toy (tracks : list track) (said : string)
  : Collaborators string string := {|
  decode := fun _ c => Some ("pcm<" ++ c ++ ">");
  encode_wav := fun a => "wav<" ++ a ++ ">";
  slice_ms := fun a from to =>
    a ++ "[" ++ format_2f from ++ ":" ++ format_2f to ++ "]";
  writable := fun _ => true;
  from_pretrained := fun _ => true;
  diarize := fun _ _ => Some tracks;
  load_model := true;
  speech_to_text := fun _ => Some said
|}.

Definition two_tracks : list track :=
  [ Track (5#2) 4 "B"; Track 0 (5#2) "A" ].

(** Two tracks of one speaker that start less than a hundredth of a
    second apart; both start times are exact binary fractions. *)
Definition early : track := Track 1 2 "SPEAKER_00".
Definition late : track := Track (257#256) 3 "SPEAKER_00".

(** A recording in each of the spellings of the extension. *)
Definition disk_wav : gmap string string := {[ "talk.wav" := "riff" ]}.
Definition disk_m4a : gmap string string := {[ "talk.m4a" := "aac" ]}.
Definition disk_M4A : gmap string string := {[ "talk.M4A" := "aac" ]}.

Definition two_lines : string :=
  "Speaker A (0.00s - 2.50s): hi
Speaker B (2.50s - 4.00s): hi
".

(** The order of the tracks as the diarizer yields them. *)
Definition yielded_in_order (a b : track) : Prop :=
  (seg_start a <= seg_start b)%Q.


(** A text no [strip] would shorten. *)
Definition trimmed (s : string) : Prop := lstrip s = s /\ rstrip s = s.

(** Libraries that can fail: the pipeline loads when [tracks] says so and
    then answers the tracks it gives, if any; the recognizer loads and
    answers as [said] tells for the bytes of the chunk; a file can be
    created where [dirs] says. *)
Definition faulty (dirs : string -> bool)
           (tracks : option (option (list track)))
           (said : string -> option string)
  : Collaborators string string := {|
  decode := fun _ c => Some ("pcm<" ++ c ++ ">");
  encode_wav := fun a => "wav<" ++ a ++ ">";
  slice_ms := fun a from to =>
    a ++ "[" ++ format_2f from ++ ":" ++ format_2f to ++ "]";
  writable := dirs;
  from_pretrained :=
    fun _ => match tracks with Some _ => true | None => false end;
  diarize :=
    fun _ _ => match tracks with Some answer => answer | None => None end;
  load_model := true;
  speech_to_text := said
|}.

(** Every directory but [dir.wav] exists. *)
Definition no_dir_wav (p : string) : bool := negb (startswith p "dir.wav/").

Definition anywhere (p : string) : bool := true.

(** A recording in a directory whose name ends like the extension. *)
Definition disk_dir : gmap string string := {[ "dir.m4a/talk.m4a" := "aac" ]}.

(** A recognizer that gives up on the chunk of speaker B. *)
Definition deaf_to_B (c : string) : option string :=
  if String.eqb c "wav<pcm<riff>[2500.00:4000.00]>" then None else Some "hi".

Definition in_order_tracks : list track :=
  [ Track 0 (5#2) "A"; Track (5#2) 4 "B" ].


(* ===================================================================== *)
(** ** Facts about strings and printed numbers *)
(* ===================================================================== *)

Section StringFacts.

Lemma contains_app c a b :
  contains c (a ++ b) = contains c a || contains c b.
Proof.
  induction a as [|d a IH]; simpl; [done|].
  by rewrite IH, orb_assoc.
Qed.

(** A string is cut in one way only at its last occurrence of [c]. *)
Lemma cut_at_last c s1 s2 t1 t2 :
  contains c t1 = false -> contains c t2 = false ->
  s1 ++ String c t1 = s2 ++ String c t2 ->
  s1 = s2 /\ t1 = t2.
Proof.
  intros H1 H2. revert s2.
  induction s1 as [|a s1 IH]; intros [|b s2]; simpl; intros E.
  - by injection E.
  - injection E as -> ->.
    rewrite contains_app in H1. simpl in H1.
    rewrite Ascii.eqb_refl in H1. simpl in H1.
    by rewrite orb_true_r in H1.
  - injection E as <- <-.
    rewrite contains_app in H2. simpl in H2.
    rewrite Ascii.eqb_refl in H2. simpl in H2.
    by rewrite orb_true_r in H2.
  - injection E as -> E. destruct (IH _ E) as [-> ->]. done.
Qed.

Lemma length_app (a b : string) :
  String.length (a ++ b) = (String.length a + String.length b)%nat.
Proof. induction a as [|c a IH]; simpl; [done | by rewrite IH]. Qed.

Lemma app_inv_tail (a b t : string) : a ++ t = b ++ t -> a = b.
Proof.
  intros E.
  assert (L : String.length a = String.length b).
  { apply (f_equal String.length) in E.
    rewrite !length_app in E. lia. }
  revert b E L. induction a as [|c a IH]; intros [|d b] E L;
    simpl in *; try done.
  injection E as -> E. f_equal. apply IH; [done | lia].
Qed.

Lemma string_of_uint_no_underscore u :
  contains "_" (NilEmpty.string_of_uint u) = false.
Proof. induction u; simpl; done. Qed.

Lemma digits_no_underscore n : contains "_" (digits n) = false.
Proof.
  unfold digits, NilZero.string_of_uint.
  destruct (N.to_uint n) eqn:E; try done;
    rewrite <- E; apply string_of_uint_no_underscore.
Qed.

Lemma format_2f_no_underscore x : contains "_" (format_2f x) = false.
Proof.
  unfold format_2f, two_digits.
  rewrite !contains_app, !digits_no_underscore.
  destruct (Qnum x <? 0)%Z; destruct (_ <? 10)%Z; simpl;
    rewrite ?contains_app, ?digits_no_underscore; done.
Qed.

(** The scratch name determines the speaker label and the printed start
    time, and nothing more. *)
Lemma temp_filename_eq sp1 st1 sp2 st2 :
  temp_filename sp1 st1 = temp_filename sp2 st2 <->
  sp1 = sp2 /\ format_2f st1 = format_2f st2.
Proof.
  unfold temp_filename. split.
  - simpl. intros E. injection E as E.
    apply cut_at_last in E as [-> E].
    + split; [done|]. by apply app_inv_tail in E.
    + rewrite contains_app, format_2f_no_underscore. done.
    + rewrite contains_app, format_2f_no_underscore. done.
  - by intros [-> ->].
Qed.

(** A path with the M4A extension is not empty, nor is what [replace]
    makes of it. *)
Lemma replace_nonempty s :
  endswith (lower s) ".m4a" = true -> replace ".m4a" ".wav" s <> "".
Proof.
  destruct s as [|c s]; [done|].
  intros _. unfold replace. cbn [replace_from].
  destruct (startswith (String c s) ".m4a"); cbn [append]; discriminate.
Qed.

End StringFacts.

(* ===================================================================== *)
(** ** The sort: ordered, a permutation, stable *)
(* ===================================================================== *)

Section SortFacts.

Lemma insert_by_start_perm x l : Permutation (insert_by_start x l) (x :: l).
Proof.
  induction l as [|y l IH]; simpl; [done|].
  destruct (Qle_bool (start x) (start y)); [done|].
  rewrite IH. apply perm_swap.
Qed.

Lemma sort_by_start_perm l : Permutation (sort_by_start l) l.
Proof.
  induction l as [|x l IH]; simpl; [done|].
  rewrite insert_by_start_perm. by constructor.
Qed.

Lemma starts_before_trans a b c :
  starts_before a b -> starts_before b c -> starts_before a c.
Proof. unfold starts_before. apply Qle_trans. Qed.

(** The comparison is total: when [x] does not start before [y], [y]
    starts before [x]. *)
Lemma not_before x y :
  Qle_bool (start x) (start y) = false -> starts_before y x.
Proof.
  intros H. unfold starts_before.
  destruct (Qlt_le_dec (start y) (start x)) as [L|L].
  - by apply Qlt_le_weak.
  - apply Qle_bool_iff in L. congruence.
Qed.

Lemma insert_by_start_sorted x l :
  StronglySorted starts_before l ->
  StronglySorted starts_before (insert_by_start x l).
Proof.
  induction 1 as [|y l S IH F]; simpl.
  - repeat constructor.
  - destruct (Qle_bool (start x) (start y)) eqn:E.
    + apply Qle_bool_iff in E.
      constructor; [by constructor|].
      constructor; [done|].
      eapply Forall_impl; [exact F|].
      intros z Hz. by apply starts_before_trans with y.
    + constructor; [done|].
      eapply Permutation_Forall.
      * symmetry. apply insert_by_start_perm.
      * constructor; [by apply not_before | done].
Qed.

Lemma sort_by_start_sorted l : StronglySorted starts_before (sort_by_start l).
Proof.
  induction l as [|x l IH]; simpl; [constructor|].
  by apply insert_by_start_sorted.
Qed.

(** Inserting [x] moves it past segments that start strictly earlier
    only, so among the segments with one given start time the order is
    the one before the insertion. *)
Lemma insert_by_start_stable k x l :
  List.filter (same_start k) (insert_by_start x l)
  = List.filter (same_start k) (x :: l).
Proof.
  induction l as [|y l IH]; [done|].
  cbn [insert_by_start].
  destruct (Qle_bool (start x) (start y)) eqn:E; [done|].
  cbn [List.filter] in *. rewrite IH.
  destruct (same_start k x) eqn:Hx; [|done].
  destruct (same_start k y) eqn:Hy; [|done].
  exfalso. unfold same_start in Hx, Hy.
  apply Qeq_bool_iff in Hx, Hy.
  assert (L : (start x <= start y)%Q) by (rewrite Hx, Hy; apply Qle_refl).
  apply Qle_bool_iff in L. congruence.
Qed.

Lemma sort_by_start_stable k l :
  List.filter (same_start k) (sort_by_start l)
  = List.filter (same_start k) l.
Proof.
  induction l as [|x l IH]; [done|].
  cbn [sort_by_start]. rewrite insert_by_start_stable.
  cbn [List.filter]. by rewrite IH.
Qed.

End SortFacts.

(* ===================================================================== *)
(** ** More on the derived name, the trimmed text and the rendering *)
(* ===================================================================== *)

Section NameFacts.

(** Case analysis on the comparisons with a character of the path. *)
Ltac by_chars :=
  repeat match goal with
         | |- context [Ascii.eqb ?a ?c] => is_var c; destruct (Ascii.eqb a c)
         end;
  cbn; intros; try assumption; try reflexivity; try discriminate.

(** Appending the extension to a non-empty stem creates no occurrence at
    the front. *)
Lemma startswith_stem c s :
  startswith (String c s) ".m4a" = false ->
  startswith (String c s ++ ".m4a") ".m4a" = false.
Proof.
  destruct s as [|c1 [|c2 [|c3 s]]];
    cbv [String.append]; cbn [startswith]; by_chars.
  destruct s; discriminate.
Qed.

Lemma replace_from_plain stem :
  occurs ".m4a" stem = false ->
  replace_from 0 ".m4a" ".wav" (stem ++ ".m4a") = stem ++ ".wav".
Proof.
  induction stem as [|c s IH]; [reflexivity|].
  cbn [occurs]. intros H. apply orb_false_elim in H as [H1 H2].
  change (String c s ++ ".m4a") with (String c (s ++ ".m4a")).
  cbn [replace_from].
  change (String c (s ++ ".m4a")) with (String c s ++ ".m4a") at 1.
  rewrite (startswith_stem c s H1).
  change (String c s ++ ".wav") with (String c (s ++ ".wav")).
  f_equal. by apply IH.
Qed.


Lemma lower_app a b : lower (a ++ b) = lower a ++ lower b.
Proof. induction a as [|c a IH]; simpl; [done | by rewrite IH]. Qed.

Lemma substring_all b : String.substring 0 (String.length b) b = b.
Proof. induction b as [|c b IH]; simpl; [done | by rewrite IH]. Qed.

Lemma substring_skip a b :
  String.substring (String.length a) (String.length b) (a ++ b) = b.
Proof. induction a as [|c a IH]; simpl; [apply substring_all | done]. Qed.

Lemma endswith_app a b : endswith (a ++ b) b = true.
Proof.
  unfold endswith. rewrite length_app.
  replace (String.length a + String.length b - String.length b)%nat
    with (String.length a) by lia.
  rewrite substring_skip, String.eqb_refl.
  rewrite andb_true_r. apply Nat.leb_le. lia.
Qed.

Lemma lstrip_head s c r : lstrip s = String c r -> isspace c = false.
Proof.
  induction s as [|d s IH]; [done|]. cbn [lstrip].
  destruct (isspace d) eqn:E; [done|]. by intros [= <- _].
Qed.

Lemma rstrip_cons c s :
  rstrip (String c s)
  = match rstrip s with
    | EmptyString => if isspace c then EmptyString else String c EmptyString
    | r => String c r
    end.
Proof. reflexivity. Qed.

Lemma rstrip_rstrip s : rstrip (rstrip s) = rstrip s.
Proof.
  induction s as [|c s IH]; [done|]. rewrite rstrip_cons.
  destruct (rstrip s) as [|d r] eqn:E.
  - destruct (isspace c) eqn:Ec; [done|]. cbn [rstrip]. by rewrite Ec.
  - by rewrite rstrip_cons, IH.
Qed.

Lemma rstrip_head c s :
  isspace c = false -> exists r, rstrip (String c s) = String c r.
Proof.
  intros E. rewrite rstrip_cons. destruct (rstrip s); [rewrite E|]; eauto.
Qed.

Lemma strip_trimmed s : trimmed (strip s).
Proof.
  unfold trimmed, strip. split; [|apply rstrip_rstrip].
  destruct (lstrip s) as [|c r] eqn:E; [done|].
  apply lstrip_head in E.
  destruct (rstrip_head c r E) as [r' ->].
  cbn [lstrip]. by rewrite E.
Qed.

Lemma sapp_cons c (u v : string) : String c u ++ v = String c (u ++ v).
Proof. reflexivity. Qed.

Lemma sapp_assoc (u v w : string) : (u ++ v) ++ w = u ++ v ++ w.
Proof.
  induction u as [|c u IH]; [done|]. by rewrite !sapp_cons, IH.
Qed.

Lemma sapp_nil_r (u : string) : u ++ "" = u.
Proof.
  induction u as [|c u IH]; [done|]. by rewrite sapp_cons, IH.
Qed.

Lemma render_from acc l :
  fold_left (fun t seg => t ++ render_line seg) l acc = acc ++ render l.
Proof.
  unfold render. revert acc.
  induction l as [|x l IH]; intros acc; simpl.
  - by rewrite sapp_nil_r.
  - rewrite IH. change ("" ++ render_line x) with (render_line x).
    rewrite (IH (render_line x)). apply sapp_assoc.
Qed.

Lemma render_cons x l : render (x :: l) = render_line x ++ render l.
Proof.
  unfold render at 1. cbn [fold_left].
  change ("" ++ render_line x) with (render_line x). apply render_from.
Qed.

Lemma render_empty_iff l : render l = "" <-> l = [].
Proof.
  split; [|by intros ->].
  destruct l as [|x l]; [done|].
  rewrite render_cons. unfold render_line. cbn [append]. discriminate.
Qed.

Lemma sort_by_start_sorted_id l :
  StronglySorted starts_before l -> sort_by_start l = l.
Proof.
  induction 1 as [|x l S IH F]; [done|].
  cbn [sort_by_start]. rewrite IH.
  destruct F as [|y l Hxy F]; [done|].
  cbn [insert_by_start].
  apply Qle_bool_iff in Hxy. by rewrite Hxy.
Qed.

Lemma built_in_order tracks segs :
  Forall2 built_from tracks segs ->
  StronglySorted yielded_in_order tracks ->
  StronglySorted starts_before segs.
Proof.
  induction 1 as [|tr seg tracks segs B F IH]; [constructor|].
  intros S. apply StronglySorted_inv in S as [S H].
  constructor; [by apply IH|].
  clear IH S. induction F as [|tr' seg' tracks segs B' F IH]; [done|].
  apply Forall_cons in H as [H1 H2].
  constructor; [|by apply IH].
  destruct B as (_ & B & _), B' as (_ & B' & _).
  unfold starts_before, yielded_in_order in *. by rewrite B, B'.
Qed.

End NameFacts.

(* ===================================================================== *)
(** ** The printed times *)
(* ===================================================================== *)

Section PrintedTimes.






End PrintedTimes.

(* ===================================================================== *)
(** ** What a run does to the disk and what it returns *)
(* ===================================================================== *)

Section RunFacts.
Context {content audio : Type} (lib : Collaborators content audio).

Abbreviation disk := (gmap string content).

Lemma bind_ok {A B} (m : M A) (k : A -> M B) (σ σ' : disk) b :
  bind m k σ = Ok b σ' ->
  exists a σ1, m σ = Ok a σ1 /\ k a σ1 = Ok b σ'.
Proof.
  unfold bind. destruct (m σ) as [a σ1|e σ1]; [eauto | discriminate].
Qed.


Lemma read_file_ok p (σ σ' : disk) c :
  read_file p σ = Ok c σ' -> σ !! p = Some c /\ σ' = σ.
Proof.
  unfold read_file. destruct (σ !! p); [|discriminate].
  by intros [= -> ->].
Qed.


Lemma write_file_ok p c (σ σ' : disk) u :
  write_file lib p c σ = Ok u σ' ->
  writable lib p = true /\ σ' = <[p := c]> σ.
Proof.
  unfold write_file. destruct (writable lib p); [|discriminate].
  by intros [= _ <-].
Qed.


Lemma load_pipeline_ok tok (σ σ' : disk) u :
  load_pipeline lib tok σ = Ok u σ' ->
  from_pretrained lib tok = true /\ σ' = σ.
Proof.
  unfold load_pipeline. destruct (from_pretrained lib tok); [|discriminate].
  by intros [= _ <-].
Qed.


Lemma load_whisper_ok (σ σ' : disk) u :
  load_whisper lib σ = Ok u σ' -> load_model lib = true /\ σ' = σ.
Proof.
  unfold load_whisper. destruct (load_model lib); [|discriminate].
  by intros [= _ <-].
Qed.


Lemma from_file_ok p fmt (σ σ' : disk) a :
  from_file lib p fmt σ = Ok a σ' ->
  exists c, σ !! p = Some c /\ decode lib fmt c = Some a /\ σ' = σ.
Proof.
  unfold from_file. intros H.
  apply bind_ok in H as (c & σ1 & R & H).
  apply read_file_ok in R as [R ->].
  destruct (decode lib fmt c) eqn:D; [|discriminate].
  injection H as -> ->. eauto.
Qed.


Lemma run_pipeline_ok tok p (σ σ' : disk) tracks :
  run_pipeline lib tok p σ = Ok tracks σ' ->
  exists c, σ !! p = Some c /\ diarize lib tok c = Some tracks /\ σ' = σ.
Proof.
  unfold run_pipeline. intros H.
  apply bind_ok in H as (c & σ1 & R & H).
  apply read_file_ok in R as [R ->].
  destruct (diarize lib tok c) eqn:D; [|discriminate].
  injection H as -> ->. eauto.
Qed.


(** The clean-up at the end never fails; it leaves the disk without
    [wav_file] when there is one. *)
Lemma cleanup_eq wav (σ : disk) : cleanup wav σ = Ok tt (cleaned wav σ).
Proof.
  destruct wav as [p|]; [|done].
  unfold cleanup, cleaned. destruct (truthy (Some p)); [|done].
  unfold bind, os_path_exists, os_remove, ret.
  destruct (σ !! p) eqn:E.
  - rewrite bool_decide_eq_true_2 by eauto. by rewrite E.
  - rewrite bool_decide_eq_false_2 by (intros [? ?]; congruence).
    by rewrite delete_id.
Qed.

(** One turn of the loop: the scratch file is written, read by the
    recognizer and removed.  When it cannot be written nothing happens to
    the disk; a fault of the recognizer leaves it behind. *)
Lemma transcribe_track_eq a tr (σ : disk) :
  transcribe_track lib a tr σ
  = if writable lib (temp_of tr) then
      match heard lib a tr with
      | Some seg => Ok seg (delete (temp_of tr) σ)
      | None => Raise (TranscriptionError (temp_of tr))
                      (<[temp_of tr := chunk_of lib a tr]> σ)
      end
    else Raise (CannotWrite (temp_of tr)) σ.
Proof.
  unfold transcribe_track, heard, export, write_file, whisper_transcribe,
    read_file, os_path_exists, os_remove, bind, ret, raise.
  fold (temp_of tr). fold (chunk_of lib a tr).
  destruct (writable lib (temp_of tr)); [|done].
  rewrite lookup_insert_eq.
  destruct (speech_to_text lib (chunk_of lib a tr)); [|done].
  rewrite lookup_insert_eq.
  rewrite bool_decide_eq_true_2 by eauto.
  by rewrite lookup_insert_eq, delete_insert_eq.
Qed.

Lemma transcribe_track_yields a tr seg (σ : disk) :
  turn_yields lib a tr seg ->
  transcribe_track lib a tr σ = Ok seg (delete (temp_of tr) σ).
Proof. intros [W H]. by rewrite transcribe_track_eq, W, H. Qed.

Lemma transcribe_track_ok a tr seg (σ σ' : disk) :
  transcribe_track lib a tr σ = Ok seg σ' ->
  turn_yields lib a tr seg /\ σ' = delete (temp_of tr) σ.
Proof.
  rewrite transcribe_track_eq. unfold turn_yields.
  destruct (writable lib (temp_of tr)); [|discriminate].
  destruct (heard lib a tr); [|discriminate].
  by intros [= -> <-].
Qed.

Lemma for_each_track_ok a tracks acc (σ σ' : disk) segs :
  for_each_track lib a tracks acc σ = Ok segs σ' ->
  exists news,
    Forall2 (turn_yields lib a) tracks news
    /\ segs = (acc ++ news)%list
    /\ σ' = sweep (map temp_of tracks) σ.
Proof.
  revert acc σ. induction tracks as [|tr tracks IH]; intros acc σ; simpl.
  - intros [= <- <-]. exists []. by rewrite app_nil_r.
  - intros H. apply bind_ok in H as (seg & σ1 & T & H).
    apply transcribe_track_ok in T as [T ->].
    apply IH in H as (news & F & -> & ->).
    exists (seg :: news). split; [by constructor|].
    by rewrite <- app_assoc.
Qed.

(** Conversely the loop goes through when every turn does. *)
Lemma for_each_track_run a tracks news acc (σ : disk) :
  Forall2 (turn_yields lib a) tracks news ->
  for_each_track lib a tracks acc σ
  = Ok (acc ++ news)%list (sweep (map temp_of tracks) σ).
Proof.
  intros F. revert acc σ.
  induction F as [|tr seg tracks news E F IH]; intros acc σ; simpl.
  - by rewrite app_nil_r.
  - unfold bind. rewrite (transcribe_track_yields _ _ _ _ E), IH.
    by rewrite <- app_assoc.
Qed.

Lemma turn_built_from a tr seg :
  turn_yields lib a tr seg -> built_from tr seg.
Proof.
  intros [_ H]. unfold heard in H.
  destruct (speech_to_text _ _); [|discriminate].
  by injection H as <-.
Qed.

Lemma turns_built_from a tracks segs :
  Forall2 (turn_yields lib a) tracks segs ->
  Forall2 built_from tracks segs.
Proof.
  induction 1; constructor; [by eapply turn_built_from | done].
Qed.

Lemma lookup_sweep_in ps (σ : disk) p : p ∈ ps -> sweep ps σ !! p = None.
Proof.
  unfold sweep. revert σ.
  induction ps as [|q ps IH]; intros σ Hin; [by apply elem_of_nil in Hin|].
  simpl. destruct (decide (p ∈ ps)) as [I|N]; [by apply IH|].
  apply elem_of_cons in Hin as [->|]; [|done].
  clear IH. revert σ. induction ps as [|r ps IH]; intros σ; simpl.
  - apply lookup_delete_eq.
  - apply not_elem_of_cons in N as [Nr N].
    rewrite delete_delete. by apply IH.
Qed.


(** The clean-up only removes. *)
Lemma lookup_cleaned_None wav (σ : disk) p :
  σ !! p = None -> cleaned wav σ !! p = None.
Proof.
  intros H. unfold cleaned. destruct wav as [q|]; [|done].
  destruct (truthy (Some q)); [|done].
  destruct (decide (q = p)) as [->|N].
  - apply lookup_delete_eq.
  - by rewrite lookup_delete_ne.
Qed.


(** The two ways through the format normalizer. *)
Lemma normalize_ok af (σ σ1 : disk) p wav :
  normalize lib af σ = Ok (p, wav) σ1 ->
  (endswith (lower af) ".m4a" = true
   /\ p = replace ".m4a" ".wav" af /\ wav = Some p
   /\ writable lib p = true
   /\ exists c a, σ !! af = Some c
                  /\ decode lib (Some "m4a") c = Some a
                  /\ σ1 = <[p := encode_wav lib a]> σ)
  \/ (endswith (lower af) ".m4a" = false
      /\ p = af /\ wav = None /\ σ1 = σ).
Proof.
  unfold normalize. destruct (endswith (lower af) ".m4a").
  - intros H. left.
    apply bind_ok in H as (a & σ2 & F & H).
    apply from_file_ok in F as (c & R & D & ->).
    apply bind_ok in H as (u & σ2 & W & H).
    apply write_file_ok in W as [W ->].
    unfold ret in H. injection H as <- <- <-. eauto 10.
  - intros [= <- <- <-]. by right.
Qed.


(** Every run that returns went through the stages in turn. *)
Lemma transcribe_ok af tok (σ σ' : disk) t :
  transcribe_speaker_diarization lib af tok σ = Ok t σ' ->
  exists p wav σ1 tracks a segs,
    normalize lib af σ = Ok (p, wav) σ1
    /\ from_pretrained lib tok = true
    /\ run_pipeline lib tok p σ1 = Ok tracks σ1
    /\ load_model lib = true
    /\ from_file lib p None σ1 = Ok a σ1
    /\ Forall2 (turn_yields lib a) tracks segs
    /\ t = assemble segs
    /\ σ' = cleaned wav (sweep (map temp_of tracks) σ1).
Proof.
  unfold transcribe_speaker_diarization. intros H.
  apply bind_ok in H as ([p wav] & σ1 & N & H).
  apply bind_ok in H as (u & σ2 & LP & H).
  apply load_pipeline_ok in LP as [LP ->].
  apply bind_ok in H as (tracks & σ2 & P & H).
  destruct (run_pipeline_ok _ _ _ _ _ P) as (? & _ & _ & ->).
  apply bind_ok in H as (u' & σ2 & LW & H).
  apply load_whisper_ok in LW as [LW ->].
  apply bind_ok in H as (a & σ2 & F & H).
  destruct (from_file_ok _ _ _ _ _ F) as (? & _ & _ & ->).
  apply bind_ok in H as (segs & σ2 & L & H).
  apply for_each_track_ok in L as (news & L & -> & ->).
  unfold bind in H. rewrite cleanup_eq in H.
  injection H as <- <-.
  exists p, wav, σ1, tracks, a, news. done.
Qed.


Lemma diarization_of_ok af tok (σ σ1 : disk) tracks :
  diarization_of lib af tok σ = Ok tracks σ1 <->
  exists p wav,
    normalize lib af σ = Ok (p, wav) σ1
    /\ from_pretrained lib tok = true
    /\ run_pipeline lib tok p σ1 = Ok tracks σ1.
Proof.
  unfold diarization_of. split.
  - intros H. apply bind_ok in H as ([p wav] & σ2 & N & H).
    apply bind_ok in H as (u & σ3 & LP & P).
    apply load_pipeline_ok in LP as [LP ->].
    destruct (run_pipeline_ok _ _ _ _ _ P) as (? & _ & _ & ->). eauto.
  - intros (p & wav & N & LP & P).
    unfold bind, load_pipeline. rewrite N, LP. unfold ret. done.
Qed.

(** A run that returns, seen from the tracks it went through. *)
Lemma transcribe_of_tracks af tok (σ σ1 σ' : disk) tracks t :
  diarization_of lib af tok σ = Ok tracks σ1 ->
  transcribe_speaker_diarization lib af tok σ = Ok t σ' ->
  exists p wav a segs,
    normalize lib af σ = Ok (p, wav) σ1
    /\ from_file lib p None σ1 = Ok a σ1
    /\ Forall2 (turn_yields lib a) tracks segs
    /\ t = assemble segs
    /\ σ' = cleaned wav (sweep (map temp_of tracks) σ1).
Proof.
  intros D H.
  apply diarization_of_ok in D as (p & wav & N & _ & P).
  apply transcribe_ok in H as (p' & wav' & σ1' & tracks' & a & segs
                                & N' & _ & P' & _ & F & L & -> & ->).
  rewrite N in N'. injection N' as <- <- <-.
  rewrite P in P'. injection P' as <-.
  exists p, wav, a, segs. done.
Qed.


End RunFacts.

(* ===================================================================== *)
(** ** Properties of the transcript *)
(* ===================================================================== *)

Section Transcript.
Context {content audio : Type} (lib : Collaborators content audio).

(** C1. Whatever the order in which the diarizer yields the tracks, the
    transcript a run returns renders the segments built from them, one
    per track, rearranged so that start times never decrease. *)
Theorem transcript_in_start_order af tok (σ σ' : gmap string content) t :
  transcribe_speaker_diarization lib af tok σ = Ok t σ' ->
  exists tracks σ1 segs,
    diarization_of lib af tok σ = Ok tracks σ1
    /\ Forall2 built_from tracks segs
    /\ t = render (sort_by_start segs)
    /\ Permutation (sort_by_start segs) segs
    /\ StronglySorted starts_before (sort_by_start segs).
Proof.
  intros H.
  apply transcribe_ok in H as (p & wav & σ1 & tracks & a & segs
                                & N & LP & P & _ & _ & L & -> & _).
  exists tracks, σ1, segs. split_and!.
  - apply diarization_of_ok. eauto.
  - by eapply turns_built_from.
  - done.
  - apply sort_by_start_perm.
  - apply sort_by_start_sorted.
Qed.

(** C10. The sort is stable: among the segments that share a start time
    the transcript keeps the order in which the diarizer yielded them. *)
Theorem ties_keep_yield_order af tok (σ σ' : gmap string content) t :
  transcribe_speaker_diarization lib af tok σ = Ok t σ' ->
  exists tracks σ1 segs,
    diarization_of lib af tok σ = Ok tracks σ1
    /\ Forall2 built_from tracks segs
    /\ t = render (sort_by_start segs)
    /\ forall k, List.filter (same_start k) (sort_by_start segs)
                 = List.filter (same_start k) segs.
Proof.
  intros H.
  apply transcribe_ok in H as (p & wav & σ1 & tracks & a & segs
                                & N & LP & P & _ & _ & L & -> & _).
  exists tracks, σ1, segs. split_and!.
  - apply diarization_of_ok. eauto.
  - by eapply turns_built_from.
  - done.
  - intros k. apply sort_by_start_stable.
Qed.


End Transcript.

(** C6. The two segments of the example, rendered by the assembler: one
    line per segment, each ended by a line feed, the times with two
    decimals. *)
Theorem assembler_renders_example :
  assemble [ Segment "A" 0 (5#2) "hello"; Segment "B" (5#2) 4 "world" ]
  = "Speaker A (0.00s - 2.50s): hello
Speaker B (2.50s - 4.00s): world
".
Proof. reflexivity. Qed.

(* ===================================================================== *)
(** ** Files written and removed *)
(* ===================================================================== *)

Section Files.
Context {content audio : Type} (lib : Collaborators content audio).

(** C4. After a run that returns, no scratch file of any track the loop
    went through is on the disk. *)
Theorem scratch_files_removed af tok (σ σ1 σ' : gmap string content)
        tracks t :
  diarization_of lib af tok σ = Ok tracks σ1 ->
  transcribe_speaker_diarization lib af tok σ = Ok t σ' ->
  forall tr, tr ∈ tracks -> σ' !! temp_of tr = None.
Proof.
  intros D H tr Hin.
  destruct (transcribe_of_tracks lib _ _ _ _ _ _ _ D H)
    as (p & wav & a & segs & _ & _ & _ & _ & ->).
  apply lookup_cleaned_None, lookup_sweep_in.
  by apply list_elem_of_fmap_2.
Qed.

(** C5. For an input whose extension is M4A in any capitalisation, a
    run that returns has decoded the input, written the converted
    waveform under the derived name, and no file of that name is left
    when it returns. *)
Theorem converted_file_written_then_removed
        af tok (σ σ' : gmap string content) t :
  endswith (lower af) ".m4a" = true ->
  transcribe_speaker_diarization lib af tok σ = Ok t σ' ->
  let wav_file := replace ".m4a" ".wav" af in
  exists c a σ1,
    σ !! af = Some c
    /\ decode lib (Some "m4a") c = Some a
    /\ normalize lib af σ = Ok (wav_file, Some wav_file) σ1
    /\ σ1 !! wav_file = Some (encode_wav lib a)
    /\ σ' !! wav_file = None.
Proof.
  intros E H wav_file.
  apply transcribe_ok in H as (p & wav & σ1 & tracks & a' & segs
                                & N & _ & _ & _ & _ & _ & _ & ->).
  destruct (normalize_ok lib _ _ _ _ _ N)
    as [(_ & -> & -> & _ & c & a & R & D & ->) | (E' & _)]; [|congruence].
  fold wav_file in N |- *.
  exists c, a, (<[wav_file := encode_wav lib a]> σ). split_and!; try done.
  - apply lookup_insert_eq.
  - unfold cleaned.
    assert (T : truthy (Some wav_file) = true).
    { pose proof (replace_nonempty af E) as NE. fold wav_file in NE.
      by destruct wav_file. }
    rewrite T. apply lookup_delete_eq.
Qed.

(** C2, as amended. Two scratch names are equal exactly when the speaker
    labels are equal and the start times print alike with two decimals,
    so distinct segments can share a name.  Even so no scratch file
    overwrites another segment's within a run: when the turn of a segment
    begins, the scratch file of every earlier segment has been removed,
    and the turn removes its own before the next begins. *)
Theorem scratch_names_shared_never_overwritten
        af tok (σ σ1 σ' : gmap string content) t pre tr post :
  (forall tr1 tr2 : track,
     temp_of tr1 = temp_of tr2 <->
     label tr1 = label tr2
     /\ format_2f (seg_start tr1) = format_2f (seg_start tr2))
  /\ (diarization_of lib af tok σ = Ok (pre ++ tr :: post)%list σ1 ->
      transcribe_speaker_diarization lib af tok σ = Ok t σ' ->
      exists p wav a segs σ_pre seg,
        normalize lib af σ = Ok (p, wav) σ1
        /\ from_file lib p None σ1 = Ok a σ1
        /\ for_each_track lib a pre [] σ1 = Ok segs σ_pre
        /\ (forall tr', tr' ∈ pre -> σ_pre !! temp_of tr' = None)
        /\ transcribe_track lib a tr σ_pre
           = Ok seg (delete (temp_of tr) σ_pre)).
Proof.
  split; [intros tr1 tr2; apply temp_filename_eq|].
  intros D H.
  destruct (transcribe_of_tracks lib _ _ _ _ _ _ _ D H)
    as (p & wav & a & segs & N & F & L & _ & _).
  apply Forall2_app_inv_l in L as (n1 & n2 & L1 & L2 & ->).
  apply Forall2_cons_inv_l in L2 as (seg & n3 & T & _ & ->).
  exists p, wav, a, n1, (sweep (map temp_of pre) σ1), seg. split_and!.
  - done.
  - done.
  - by rewrite (for_each_track_run lib a pre n1 [] σ1 L1).
  - intros tr' I. apply lookup_sweep_in. by apply list_elem_of_fmap_2.
  - by apply transcribe_track_yields.
Qed.

(** C8. With fewer than two positional arguments ([sys.argv] shorter
    than three) the program prints the usage line and exits with code 1
    without touching the disk; otherwise it enters the pipeline with the
    first two of them, and prints the transcript when the run returns. *)
Theorem main_checks_argument_count argv (σ : gmap string content) :
  (List.length argv < 3 ->
   main lib argv σ
   = Exited "Usage: python transcribe_with_diarization.py <audio_file> <hf_token>
" 1 σ)
  /\ (3 <= List.length argv ->
      main lib argv σ
      = match transcribe_speaker_diarization
                lib (nth 1 argv "") (nth 2 argv "") σ with
        | Ok transcript σ' => Exited (transcript ++ "
") 0 σ'
        | Raise e σ' => Uncaught e σ'
        end).
Proof.
  unfold main. split; intros L.
  - apply Nat.ltb_lt in L. by rewrite L.
  - apply Nat.ltb_ge in L. by rewrite L.
Qed.

End Files.

(** C2, counterexample. Two distinct tracks, with start times that are not
    equal, share a scratch name. *)
Lemma scratch_names_clash :
  early <> late
  /\ ~ (seg_start early == seg_start late)%Q
  /\ temp_of early = temp_of late.
Proof. split_and!; [discriminate | discriminate | reflexivity]. Qed.

(** C3, at the failing input. The extension in capitals passes the test
    of line 20 but is not touched by the [replace] of line 22: the derived
    name is the input's own, and the conversion is written over it. *)
Theorem capital_extension_not_renamed :
  endswith (lower "talk.M4A") ".m4a" = true
  /\ replace ".m4a" ".wav" "talk.M4A" = "talk.M4A"
  /\ normalize (toy two_tracks " hi ") "talk.M4A" disk_M4A
     = Ok ("talk.M4A", Some "talk.M4A") {[ "talk.M4A" := "wav<pcm<aac>>" ]}.
Proof. split_and!; reflexivity. Qed.

(** C9, at the failing input. The run on [talk.M4A] returns the transcript
    and leaves an empty disk: the caller's file has been overwritten and
    then removed. *)
Theorem capital_extension_input_removed :
  disk_M4A !! "talk.M4A" = Some "aac"
  /\ transcribe_speaker_diarization (toy two_tracks " hi ")
       "talk.M4A" "tok" disk_M4A
     = Ok two_lines ∅.
Proof. split; reflexivity. Qed.

(* ===================================================================== *)
(** ** Runs that end with a fault *)
(* ===================================================================== *)

Section Faults.
Context {content audio : Type} (lib : Collaborators content audio).



(** X3. When the input file does not exist the run fails and the disk is
    as it was: with the missing-file fault at the first read (line 21 for
    an M4A path, line 37 otherwise), unless the path is not M4A and
    loading the pipeline (lines 31-32) fails first. *)
Theorem missing_input_fails af tok (σ : gmap string content) :
  σ !! af = None ->
  transcribe_speaker_diarization lib af tok σ
  = Raise (if endswith (lower af) ".m4a" || from_pretrained lib tok
           then MissingFile af else PipelineLoadError) σ.
Proof.
  intros N.
  unfold transcribe_speaker_diarization, normalize, from_file, load_pipeline,
    run_pipeline, read_file, bind, ret, raise.
  destruct (endswith (lower af) ".m4a"); [by rewrite N|].
  destruct (from_pretrained lib tok); [by rewrite N | done].
Qed.


(** X5. When the diarization stage fails on an M4A input - the pipeline
    does not load, or it fails on the file - the run ends with that fault
    and the converted waveform written at line 23 stays on the disk: the
    clean-up of lines 98-99 is never reached. *)
Theorem diarization_fault_leaves_converted_file
        af tok (σ : gmap string content) c a :
  endswith (lower af) ".m4a" = true ->
  σ !! af = Some c ->
  decode lib (Some "m4a") c = Some a ->
  writable lib (replace ".m4a" ".wav" af) = true ->
  from_pretrained lib tok = false
  \/ diarize lib tok (encode_wav lib a) = None ->
  transcribe_speaker_diarization lib af tok σ
  = Raise (if from_pretrained lib tok
           then DiarizationError else PipelineLoadError)
          (<[replace ".m4a" ".wav" af := encode_wav lib a]> σ).
Proof.
  intros E R D W N.
  unfold transcribe_speaker_diarization, normalize, from_file, export,
    write_file, load_pipeline, run_pipeline, read_file, bind, ret, raise.
  rewrite E, R, D, W.
  destruct (from_pretrained lib tok); [|done].
  destruct N as [N|N]; [discriminate|].
  by rewrite lookup_insert_eq, N.
Qed.


End Faults.

(* ===================================================================== *)
(** ** What a run that returns leaves behind *)
(* ===================================================================== *)

Section Frame.
Context {content audio : Type} (lib : Collaborators content audio).

(** X6. A run returns the empty string only when the diarizer yielded no
    track: every track contributes a line. *)
Theorem transcript_empty_iff_no_tracks
        af tok (σ σ1 σ' : gmap string content) tracks t :
  diarization_of lib af tok σ = Ok tracks σ1 ->
  transcribe_speaker_diarization lib af tok σ = Ok t σ' ->
  t = "" <-> tracks = [].
Proof.
  intros D H.
  destruct (transcribe_of_tracks lib _ _ _ _ _ _ _ D H)
    as (p & wav & a & segs & _ & _ & L & -> & _).
  unfold assemble. rewrite render_empty_iff. split.
  - intros E.
    pose proof (Permutation_length (sort_by_start_perm segs)) as Len.
    rewrite E in Len. destruct segs; [|discriminate]. by inversion L.
  - intros ->. by inversion L.
Qed.

(** X7. When the diarizer yields the tracks with start times that never
    decrease, the transcript lists them in the order they were yielded:
    the sort moves nothing. *)
Theorem ordered_tracks_keep_order
        af tok (σ σ1 σ' : gmap string content) tracks t :
  diarization_of lib af tok σ = Ok tracks σ1 ->
  transcribe_speaker_diarization lib af tok σ = Ok t σ' ->
  StronglySorted yielded_in_order tracks ->
  exists segs, Forall2 built_from tracks segs /\ t = render segs.
Proof.
  intros D H S.
  destruct (transcribe_of_tracks lib _ _ _ _ _ _ _ D H)
    as (p & wav & a & segs & _ & _ & L & -> & _).
  apply turns_built_from in L.
  exists segs. split; [done|].
  unfold assemble. by rewrite (sort_by_start_sorted_id segs
                                 (built_in_order tracks segs L S)).
Qed.

(** X8. For a path that ends in the lower-case extension and has no other
    occurrence of it, the converted waveform goes to the same stem with
    [.wav], beside the input, and the run goes on with that file; when no
    file can be created there the run stops with nothing written. *)
Theorem plain_m4a_converted_beside_input
        stem (σ : gmap string content) c a :
  occurs ".m4a" stem = false ->
  σ !! (stem ++ ".m4a") = Some c ->
  decode lib (Some "m4a") c = Some a ->
  normalize lib (stem ++ ".m4a") σ
  = if writable lib (stem ++ ".wav")
    then Ok (stem ++ ".wav", Some (stem ++ ".wav"))
            (<[stem ++ ".wav" := encode_wav lib a]> σ)
    else Raise (CannotWrite (stem ++ ".wav")) σ.
Proof.
  intros O R D.
  unfold normalize, from_file, read_file, export, write_file, bind, ret.
  rewrite lower_app, endswith_app, R, D.
  unfold replace. rewrite (replace_from_plain stem O).
  by destruct (writable lib (stem ++ ".wav")).
Qed.


(** X10. The text kept for every segment is trimmed: it neither starts
    nor ends with white space. *)
Theorem segment_texts_trimmed af tok (σ σ' : gmap string content) t :
  transcribe_speaker_diarization lib af tok σ = Ok t σ' ->
  exists tracks σ1 segs,
    diarization_of lib af tok σ = Ok tracks σ1
    /\ Forall2 built_from tracks segs
    /\ t = render (sort_by_start segs)
    /\ Forall (fun seg => trimmed (text seg)) segs.
Proof.
  intros H.
  apply transcribe_ok in H as (p & wav & σ1 & tracks & a & segs
                                & N & LP & P & _ & _ & L & -> & _).
  exists tracks, σ1, segs. split_and!.
  - apply diarization_of_ok. eauto.
  - by eapply turns_built_from.
  - done.
  - clear N P. induction L as [|tr seg tracks segs E L IH]; constructor.
    + destruct E as [_ E].
      unfold heard in E. destruct (speech_to_text _ _); [|discriminate].
      injection E as <-. apply strip_trimmed.
    + done.
Qed.


End Frame.

(* ===================================================================== *)
(** ** The theorems at concrete runs *)
(* ===================================================================== *)



(** A run on an M4A recording with the two tracks yielded out of order. *)
Example sample_run :
  transcribe_speaker_diarization (toy two_tracks " hi ")
    "talk.m4a" "tok" disk_m4a
  = Ok two_lines disk_m4a.
Proof. reflexivity. Qed.

Example sample_diarization :
  diarization_of (toy two_tracks " hi ") "talk.m4a" "tok" disk_m4a
  = Ok two_tracks (<[ "talk.wav" := "wav<pcm<aac>>" ]> disk_m4a).
Proof. reflexivity. Qed.

(** The replacement of line 22 also rewrites the directory: when
    [dir.wav] does not exist the conversion cannot be written. *)
Example sample_missing_directory :
  transcribe_speaker_diarization
    (faulty no_dir_wav (Some (Some two_tracks)) deaf_to_B)
    "dir.m4a/talk.m4a" "tok" disk_dir
  = Raise (CannotWrite "dir.wav/talk.wav") disk_dir.
Proof. reflexivity. Qed.

Lemma transcript_in_start_order_witness :
  exists tracks σ1 segs,
    diarization_of (toy two_tracks " hi ") "talk.m4a" "tok" disk_m4a
    = Ok tracks σ1
    /\ Forall2 built_from tracks segs
    /\ two_lines = render (sort_by_start segs)
    /\ Permutation (sort_by_start segs) segs
    /\ StronglySorted starts_before (sort_by_start segs).
Proof.
  apply (transcript_in_start_order (toy two_tracks " hi ")
           "talk.m4a" "tok" disk_m4a disk_m4a two_lines).
  reflexivity.
Defined.

Lemma ties_keep_yield_order_witness :
  exists tracks σ1 segs,
    diarization_of (toy [early; Track 1 3 "SPEAKER_01"] "hm")
      "talk.wav" "tok" disk_wav = Ok tracks σ1
    /\ Forall2 built_from tracks segs
    /\ "Speaker SPEAKER_00 (1.00s - 2.00s): hm
Speaker SPEAKER_01 (1.00s - 3.00s): hm
"
       = render (sort_by_start segs)
    /\ forall k, List.filter (same_start k) (sort_by_start segs)
                 = List.filter (same_start k) segs.
Proof.
  apply (ties_keep_yield_order (toy [early; Track 1 3 "SPEAKER_01"] "hm")
           "talk.wav" "tok" disk_wav disk_wav).
  reflexivity.
Defined.


Lemma scratch_files_removed_witness :
  disk_m4a !! temp_of (Track 0 (5#2) "A") = None.
Proof.
  apply (scratch_files_removed (toy two_tracks " hi ")
           "talk.m4a" "tok" disk_m4a
           (<[ "talk.wav" := "wav<pcm<aac>>" ]> disk_m4a) disk_m4a
           two_tracks two_lines).
  - reflexivity.
  - reflexivity.
  - unfold two_tracks. apply list_elem_of_further, list_elem_of_here.
Defined.

Lemma converted_file_written_then_removed_witness :
  exists c a σ1,
    disk_m4a !! "talk.m4a" = Some c
    /\ decode (toy two_tracks " hi ") (Some "m4a") c = Some a
    /\ normalize (toy two_tracks " hi ") "talk.m4a" disk_m4a
       = Ok ("talk.wav", Some "talk.wav") σ1
    /\ σ1 !! "talk.wav" = Some (encode_wav (toy two_tracks " hi ") a)
    /\ disk_m4a !! "talk.wav" = None.
Proof.
  apply (converted_file_written_then_removed (toy two_tracks " hi ")
           "talk.m4a" "tok" disk_m4a disk_m4a two_lines);
    reflexivity.
Defined.

(** The two tracks that share a scratch name, in one run: when the turn
    of the second begins the file of the first is gone. *)
Lemma scratch_names_shared_never_overwritten_witness :
  temp_of early = temp_of late
  /\ exists p wav a segs σ_pre seg,
       normalize (toy [early; late] "hm") "talk.wav" disk_wav
       = Ok (p, wav) disk_wav
       /\ from_file (toy [early; late] "hm") p None disk_wav = Ok a disk_wav
       /\ for_each_track (toy [early; late] "hm") a [early] [] disk_wav
          = Ok segs σ_pre
       /\ (forall tr', tr' ∈ [early] -> σ_pre !! temp_of tr' = None)
       /\ transcribe_track (toy [early; late] "hm") a late σ_pre
          = Ok seg (delete (temp_of late) σ_pre).
Proof.
  destruct (scratch_names_shared_never_overwritten (toy [early; late] "hm")
              "talk.wav" "tok" disk_wav disk_wav disk_wav
              "Speaker SPEAKER_00 (1.00s - 2.00s): hm
Speaker SPEAKER_00 (1.00s - 3.00s): hm
"
              [early] late []) as [Names Run].
  split.
  - apply Names. split; reflexivity.
  - apply Run; reflexivity.
Defined.

Lemma main_checks_argument_count_witness :
  main (toy two_tracks " hi ") ["trans.py"; "talk.wav"] disk_wav
  = Exited "Usage: python transcribe_with_diarization.py <audio_file> <hf_token>
" 1 disk_wav
  /\ main (toy two_tracks " hi ") ["trans.py"; "talk.wav"; "tok"] disk_wav
     = Exited "Speaker A (0.00s - 2.50s): hi
Speaker B (2.50s - 4.00s): hi

" 0 disk_wav.
Proof.
  split.
  - apply (proj1 (main_checks_argument_count (toy two_tracks " hi ")
                    ["trans.py"; "talk.wav"] disk_wav)).
    simpl. lia.
  - rewrite (proj2 (main_checks_argument_count (toy two_tracks " hi ")
                      ["trans.py"; "talk.wav"; "tok"] disk_wav)).
    + reflexivity.
    + simpl. lia.
Defined.

Lemma missing_input_fails_witness :
  transcribe_speaker_diarization (faulty anywhere None deaf_to_B)
    "absent.wav" "tok" disk_m4a
  = Raise PipelineLoadError disk_m4a
  /\ transcribe_speaker_diarization (toy two_tracks " hi ")
       "absent.m4a" "tok" disk_m4a
     = Raise (MissingFile "absent.m4a") disk_m4a.
Proof.
  split.
  - apply (missing_input_fails (faulty anywhere None deaf_to_B)
             "absent.wav" "tok" disk_m4a).
    reflexivity.
  - apply (missing_input_fails (toy two_tracks " hi ")
             "absent.m4a" "tok" disk_m4a).
    reflexivity.
Defined.


Lemma diarization_fault_leaves_converted_file_witness :
  transcribe_speaker_diarization (faulty anywhere (Some None) deaf_to_B)
    "talk.m4a" "tok" disk_m4a
  = Raise DiarizationError (<[ "talk.wav" := "wav<pcm<aac>>" ]> disk_m4a).
Proof.
  apply (diarization_fault_leaves_converted_file
           (faulty anywhere (Some None) deaf_to_B)
           "talk.m4a" "tok" disk_m4a "aac" "pcm<aac>");
    try reflexivity.
  right. reflexivity.
Defined.


Lemma transcript_empty_iff_no_tracks_witness :
  two_lines = "" <-> two_tracks = [].
Proof.
  apply (transcript_empty_iff_no_tracks (toy two_tracks " hi ")
           "talk.m4a" "tok" disk_m4a
           (<[ "talk.wav" := "wav<pcm<aac>>" ]> disk_m4a) disk_m4a);
    reflexivity.
Defined.

Lemma ordered_tracks_keep_order_witness :
  exists segs, Forall2 built_from in_order_tracks segs /\ two_lines = render segs.
Proof.
  apply (ordered_tracks_keep_order (toy in_order_tracks " hi ")
           "talk.wav" "tok" disk_wav disk_wav disk_wav).
  - reflexivity.
  - reflexivity.
  - unfold in_order_tracks, yielded_in_order.
    repeat constructor. unfold Qle. simpl. lia.
Defined.

Lemma plain_m4a_converted_beside_input_witness :
  normalize (toy two_tracks " hi ") "talk.m4a" disk_m4a
  = Ok ("talk.wav", Some "talk.wav")
       (<[ "talk.wav" := "wav<pcm<aac>>" ]> disk_m4a).
Proof.
  exact (plain_m4a_converted_beside_input (toy two_tracks " hi ")
           "talk" disk_m4a "aac" "pcm<aac>" eq_refl eq_refl eq_refl).
Defined.


Lemma segment_texts_trimmed_witness :
  exists tracks σ1 segs,
    diarization_of (toy two_tracks " hi ") "talk.m4a" "tok" disk_m4a
    = Ok tracks σ1
    /\ Forall2 built_from tracks segs
    /\ two_lines = render (sort_by_start segs)
    /\ Forall (fun seg => trimmed (text seg)) segs.
Proof.
  apply (segment_texts_trimmed (toy two_tracks " hi ")
           "talk.m4a" "tok" disk_m4a disk_m4a two_lines).
  reflexivity.
Defined.


